(** * SQL write detection: a model of [write_detector.py]

    The module [mcp_snowflake_server.write_detector] classifies a SQL
    text as reading or writing.  It hands the text to the tokenizer
    [sqlparse.parse], walks the token trees that come back and collects
    the write keywords it meets.

    The development below embeds the class [SQLWriteDetector] method by
    method.  The tokenizer is a third-party library; it is a parameter
    of the model, and its tokens are described by the attributes the
    detector reads from them.  Python's [str.upper] is an interface of
    the model too, so that what is proved holds for its Unicode case
    mappings. *)

From Stdlib Require Import String Ascii List Bool Permutation.
From stdpp Require Import gmap strings list.
Import ListNotations.
Local Open Scope string_scope.
#[local] Set Warnings "-clear-no-such-hyp".

(** ** Python strings *)

Module PyStr.

(** Texts are held in UTF-8.  [str.upper] is Python's own, with the
    case mappings of Unicode ("ſ" goes to "S", "ß" to "SS"); the model
    does not spell it out and takes it as an interface: a function on
    texts that is idempotent. *)
Class Upper : Type := {
  upper : string → string;
  upper_idempotent : ∀ s, upper (upper s) = upper s
}.

(** What [str.upper] does to a text of ASCII characters: the letters
    [a]..[z] are moved to [A]..[Z] and every other character is kept. *)
Definition upper_ascii (c : ascii) : ascii :=
  let n := nat_of_ascii c in
  if (97 <=? n)%nat && (n <=? 122)%nat then ascii_of_nat (n - 32) else c.

Fixpoint upper_ascii_text (s : string) : string :=
  match s with
  | EmptyString => EmptyString
  | String c rest => String (upper_ascii c) (upper_ascii_text rest)
  end.

(** [s.startswith(p)]. *)
Fixpoint startswith (p s : string) : bool :=
  match p, s with
  | EmptyString, _ => true
  | String _ _, EmptyString => false
  | String a p', String b s' => Ascii.eqb a b && startswith p' s'
  end.

(** The substring test [needle in hay] of Python; on UTF-8 texts a
    substring of bytes is a substring of characters. *)
Fixpoint contains (needle hay : string) : bool :=
  startswith needle hay ||
  match hay with
  | EmptyString => false
  | String _ rest => contains needle rest
  end.

End PyStr.

(** ** The tokenizer's data, as the detector sees it *)

(** A token type of [sqlparse.tokens] is a tuple of names:
    [Token.Keyword.DML] is [("Keyword", "DML")]. *)
Definition TokenType : Type := list string.

Module T.
Definition Keyword : TokenType := ["Keyword"].
Definition DML : TokenType := ["Keyword"; "DML"].
Definition DDL : TokenType := ["Keyword"; "DDL"].
Definition CTE : TokenType := ["Keyword"; "CTE"].
Definition Comment : TokenType := ["Comment"].
Definition Whitespace : TokenType := ["Text"; "Whitespace"].
Definition Name : TokenType := ["Name"].
Definition Punctuation : TokenType := ["Punctuation"].
Definition Wildcard : TokenType := ["Wildcard"].
Definition Integer : TokenType := ["Literal"; "Number"; "Integer"].
Definition Single : TokenType := ["Literal"; "String"; "Single"].
Definition Comparison : TokenType := ["Operator"; "Comparison"].
Definition CommentSingle : TokenType := ["Comment"; "Single"].
End T.

(** The attributes of a token object that the detector reads. *)
Record Attrs : Type := mkAttrs {
  ttype : option TokenType;   (* [token.ttype]; [None] is Python's None *)
  is_keyword : bool;          (* [token.is_keyword] *)
  is_whitespace : bool;       (* [token.is_whitespace] *)
  normalized : string         (* [token.normalized] *)
}.

(** A token is either a plain [sqlparse.sql.Token] or an instance of
    [TokenList], which carries an ordered sequence of child tokens. *)
#[local] Unset Elimination Schemes.
Inductive Token : Type :=
| Leaf (a : Attrs)
| Group (a : Attrs) (children : list Token).
#[local] Set Elimination Schemes.

Definition attrs (token : Token) : Attrs :=
  match token with Leaf a | Group a _ => a end.

(** [isinstance(token, TokenList)]. *)
Definition is_TokenList (token : Token) : bool :=
  match token with Leaf _ => false | Group _ _ => true end.

(** [token.tokens].  The detector reads it from statements and from
    tokens that passed the [isinstance] test only; a plain token has no
    children. *)
Definition tokens (token : Token) : list Token :=
  match token with Leaf _ => [] | Group _ children => children end.

(** [ttype in (t1, ..., tn)]: membership in a Python tuple compares with
    [==]; [None] equals none of the types. *)
Definition ttype_in (token : Token) (types : list TokenType) : bool :=
  match ttype (attrs token) with
  | Some t => bool_decide (t ∈ types)
  | None => false
  end.

(** ** Results *)

(** What a Python call does: return a value or raise. *)
Inductive outcome (A : Type) : Type :=
| Returned (a : A)
| Raised (exn : string).
Arguments Returned {A} a.
Arguments Raised {A} exn.

(** The dictionary [analyze_query] returns. *)
Record AnalysisResult : Type := mkResult {
  contains_write : bool;
  write_operations : gset string;
  has_cte_write : bool
}.

(** ** The detector *)

Module SQLWriteDetector.

Definition dml_write_keywords : gset string :=
  {["INSERT"; "UPDATE"; "DELETE"; "MERGE"; "UPSERT"; "REPLACE"]}.

Definition ddl_keywords : gset string :=
  {["CREATE"; "ALTER"; "DROP"; "TRUNCATE"; "RENAME"]}.

Definition dcl_keywords : gset string := {["GRANT"; "REVOKE"]}.

Definition write_keywords : gset string :=
  dml_write_keywords ∪ ddl_keywords ∪ dcl_keywords.

(** [token.is_keyword and token.normalized == "WITH"] *)
Definition is_with (token : Token) : bool :=
  is_keyword (attrs token) && String.eqb (normalized (attrs token)) "WITH".

(** [token.ttype in (Keyword, DML, DDL) or token.is_keyword] *)
Definition keyword_classified (token : Token) : bool :=
  ttype_in token [T.Keyword; T.DML; T.DDL] || is_keyword (attrs token).

(** [token.is_whitespace or token.ttype in (sqlparse.tokens.Comment,)] *)
Definition skipped (token : Token) : bool :=
  is_whitespace (attrs token) || ttype_in token [T.Comment].

Definition _has_cte (statement : Token) : bool :=
  existsb is_with (tokens statement).

Section Detector.

(** [str.upper] of the Python running the detector. *)
Context {U : PyStr.Upper}.

Fixpoint _find_write_operations_in_token (token : Token) : gset string :=
  let operations : gset string := ∅ in
  (* every token object has the attributes [ttype] and [normalized] *)
  let operations :=
    if keyword_classified token then
      let normalized := PyStr.upper (normalized (attrs token)) in
      if bool_decide (normalized ∈ write_keywords)
      then operations ∪ {[normalized]} else operations
    else operations in
  let operations :=
    let token_str := PyStr.upper (normalized (attrs token)) in
    operations ∪
      filter (λ write_kw, Is_true (PyStr.contains write_kw token_str))
             write_keywords in
  match token with
  | Group _ children =>
      fold_left
        (λ operations child_token,
           operations ∪ _find_write_operations_in_token child_token)
        children operations
  | Leaf _ => operations
  end.

(** The loop of [_analyze_cte] from a given value of [in_cte]; [true] is
    the early [return True]. *)
Fixpoint _analyze_cte_loop (in_cte : bool) (rest : list Token) : bool :=
  match rest with
  | [] => false
  | token :: rest =>
      if is_with token then _analyze_cte_loop true rest
      else if in_cte then
        let cte_operations := _find_write_operations_in_token token in
        if bool_decide (cte_operations ≠ ∅) then true
        else _analyze_cte_loop in_cte rest
      else _analyze_cte_loop in_cte rest
  end.

Definition _analyze_cte (statement : Token) : bool :=
  _analyze_cte_loop false (tokens statement).

Fixpoint _find_write_operations (statement : Token) : gset string :=
  match statement with
  | Leaf _ => ∅
  | Group _ children =>
      fold_left
        (λ operations token,
           if skipped token then operations
           else
             let operations :=
               if keyword_classified token then
                 let normalized := PyStr.upper (normalized (attrs token)) in
                 if bool_decide (normalized ∈ write_keywords)
                 then operations ∪ {[normalized]} else operations
               else operations in
             match token with
             | Group _ _ => operations ∪ _find_write_operations token
             | Leaf _ => operations
             end)
        children ∅
  end.

Section Analyze.

(** [sqlparse.parse]: the statements of a SQL text, or an exception. *)
Variable parse : string → outcome (list Token).

Definition analyze_query (sql_query : string) : outcome AnalysisResult :=
  match parse sql_query with
  | Raised exn => Raised exn
  | Returned parsed =>
      match parsed with
      | [] => Returned (mkResult false ∅ false)
      | _ =>
          let '(found_operations, has_cte_write) :=
            fold_left
              (λ '(found_operations, has_cte_write) statement,
                 let '(found_operations, has_cte_write) :=
                   if _has_cte statement && _analyze_cte statement
                   then (found_operations ∪ {["CTE_WRITE"]}, true)
                   else (found_operations, has_cte_write) in
                 let operations := _find_write_operations statement in
                 (found_operations ∪ operations, has_cte_write))
              parsed ((∅ : gset string), false) in
          Returned (mkResult
                      (negb (bool_decide (found_operations = ∅))
                       || has_cte_write)
                      found_operations has_cte_write)
      end
  end.

End Analyze.

End Detector.

End SQLWriteDetector.

(** ** Token trees of some SQL texts *)

Module Sample.

(** [t[:len(parent)] == parent], the test behind [ttype in T.Keyword]. *)
Fixpoint within (parent t : TokenType) : bool :=
  match parent, t with
  | [], _ => true
  | _ :: _, [] => false
  | a :: parent', b :: t' => String.eqb a b && within parent' t'
  end.

(** A plain token, with the attributes [Token.__init__] gives it; the
    texts of the samples are ASCII. *)
Definition tok (ttype : TokenType) (value : string) : Token :=
  let kw := within T.Keyword ttype in
  Leaf (mkAttrs (Some ttype) kw (within T.Whitespace ttype)
                (if kw then PyStr.upper_ascii_text value else value)).

(** A [TokenList] with the given text. *)
Definition grp (text : string) (children : list Token) : Token :=
  Group (mkAttrs None false false text) children.

Definition ws : Token := tok T.Whitespace " ".

(** The CTE definition [c AS (SELECT 1)].  The tokenizer first makes
    the identifier [c] and then extends it by the alias; the list keeps
    the text it had before, [c]. *)
Definition cte_select_1 : Token :=
  grp "c"
    [ tok T.Name "c"; ws; tok T.Keyword "AS"; ws;
      grp "(SELECT 1)"
        [ tok T.Punctuation "("; tok T.DML "SELECT"; ws;
          tok T.Integer "1"; tok T.Punctuation ")" ] ].

(** [WITH c AS (SELECT 1) DELETE FROM t] *)
Definition cte_then_delete : Token :=
  grp "WITH c AS (SELECT 1) DELETE FROM t"
    [ tok T.CTE "WITH"; ws;
      cte_select_1;
      ws; tok T.DML "DELETE"; ws; tok T.Keyword "FROM"; ws;
      grp "t" [ tok T.Name "t" ] ].

(** [WITH c AS (SELECT update_count FROM t) SELECT * FROM c] *)
Definition cte_body_update_count : Token :=
  grp "c"
    [ tok T.Name "c"; ws; tok T.Keyword "AS"; ws;
      grp "(SELECT update_count FROM t)"
        [ tok T.Punctuation "("; tok T.DML "SELECT"; ws;
          grp "update_count" [ tok T.Name "update_count" ]; ws;
          tok T.Keyword "FROM"; ws; grp "t" [ tok T.Name "t" ];
          tok T.Punctuation ")" ] ].

Definition cte_update_count : Token :=
  grp "WITH c AS (SELECT update_count FROM t) SELECT * FROM c"
    [ tok T.CTE "WITH"; ws; cte_body_update_count;
      ws; tok T.DML "SELECT"; ws; tok T.Wildcard "*"; ws;
      tok T.Keyword "FROM"; ws; grp "c" [ tok T.Name "c" ] ].

(** [WITH c AS (SELECT 1) SELECT 'DELETE' FROM c] *)
Definition cte_string_delete : Token :=
  grp "WITH c AS (SELECT 1) SELECT 'DELETE' FROM c"
    [ tok T.CTE "WITH"; ws;
      cte_select_1;
      ws; tok T.DML "SELECT"; ws; tok T.Single "'DELETE'"; ws;
      tok T.Keyword "FROM"; ws; grp "c" [ tok T.Name "c" ] ].

(** The two statements of [SELECT 1; UPDATE t SET x=1]. *)
Definition select_1 : Token :=
  grp "SELECT 1;"
    [ tok T.DML "SELECT"; ws; tok T.Integer "1"; tok T.Punctuation ";" ].

Definition update_t : Token :=
  grp " UPDATE t SET x=1"
    [ ws; tok T.DML "UPDATE"; ws; grp "t" [ tok T.Name "t" ]; ws;
      tok T.Keyword "SET"; ws;
      grp "x=1"
        [ grp "x" [ tok T.Name "x" ]; tok T.Comparison "=";
          tok T.Integer "1" ] ].

(** [-- DROP TABLE t]: a statement that is one comment. *)
Definition comment_only : Token :=
  grp "-- DROP TABLE t"
    [ grp "-- DROP TABLE t" [ tok T.CommentSingle "-- DROP TABLE t" ] ].

(** A statement that is white space. *)
Definition whitespace_only : Token := grp "  " [ ws; ws ].

(** [SELECT * FROM (SELECT * FROM (SELECT * FROM (DELETE FROM t)))],
    from the innermost parenthesis outwards. *)
Definition delete_level3 : Token :=
  grp "(DELETE FROM t)"
    [ tok T.Punctuation "("; tok T.DML "DELETE"; ws;
      tok T.Keyword "FROM"; ws; grp "t" [ tok T.Name "t" ];
      tok T.Punctuation ")" ].

Definition delete_level2 : Token :=
  grp "(SELECT * FROM (DELETE FROM t))"
    [ tok T.Punctuation "("; tok T.DML "SELECT"; ws;
      tok T.Wildcard "*"; ws; tok T.Keyword "FROM"; ws;
      delete_level3; tok T.Punctuation ")" ].

Definition delete_level1 : Token :=
  grp "(SELECT * FROM (SELECT * FROM (DELETE FROM t)))"
    [ tok T.Punctuation "("; tok T.DML "SELECT"; ws;
      tok T.Wildcard "*"; ws; tok T.Keyword "FROM"; ws;
      delete_level2; tok T.Punctuation ")" ].

Definition delete_three_deep : Token :=
  grp "SELECT * FROM (SELECT * FROM (SELECT * FROM (DELETE FROM t)))"
    [ tok T.DML "SELECT"; ws; tok T.Wildcard "*"; ws;
      tok T.Keyword "FROM"; ws; delete_level1 ].

(** The CTE definition [c AS (DELETE FROM t)]. *)
Definition cte_body_delete : Token :=
  grp "c"
    [ tok T.Name "c"; ws; tok T.Keyword "AS"; ws; delete_level3 ].

(** [SELECT * FROM (WITH c AS (DELETE FROM t) SELECT * FROM c)]: the
    WITH keyword is inside a parenthesis. *)
Definition with_in_subquery : Token :=
  grp "SELECT * FROM (WITH c AS (DELETE FROM t) SELECT * FROM c)"
    [ tok T.DML "SELECT"; ws; tok T.Wildcard "*"; ws;
      tok T.Keyword "FROM"; ws;
      grp "(WITH c AS (DELETE FROM t) SELECT * FROM c)"
        [ tok T.Punctuation "("; tok T.CTE "WITH"; ws;
          cte_body_delete;
          ws; tok T.DML "SELECT"; ws; tok T.Wildcard "*"; ws;
          tok T.Keyword "FROM"; ws; grp "c" [ tok T.Name "c" ];
          tok T.Punctuation ")" ] ].

(** [INSERT INTO t WITH c AS (SELECT 1) SELECT * FROM c], in two
    parts: up to the WITH keyword, and from it. *)
Definition insert_into_t : list Token :=
  [ tok T.DML "INSERT"; ws; tok T.Keyword "INTO"; ws;
    grp "t" [ tok T.Name "t" ]; ws ].

Definition with_select : list Token :=
  [ tok T.CTE "WITH"; ws;
    cte_select_1;
    ws; tok T.DML "SELECT"; ws; tok T.Wildcard "*"; ws;
    tok T.Keyword "FROM"; ws; grp "c" [ tok T.Name "c" ] ].

(** [WITH c AS (DELETE FROM t) SELECT * FROM c] *)
Definition cte_delete : Token :=
  grp "WITH c AS (DELETE FROM t) SELECT * FROM c"
    [ tok T.CTE "WITH"; ws; cte_body_delete;
      ws; tok T.DML "SELECT"; ws; tok T.Wildcard "*"; ws;
      tok T.Keyword "FROM"; ws; grp "c" [ tok T.Name "c" ] ].


(** [WITH c AS (SELECT 1) SELECT 1], and the comment [-- DROP TABLE t]
    that may follow it. *)
Definition with_select_1 : list Token :=
  [ tok T.CTE "WITH"; ws;
    cte_select_1;
    ws; tok T.DML "SELECT"; ws; tok T.Integer "1" ].

Definition drop_comment : Token :=
  grp "-- DROP TABLE t" [ tok T.CommentSingle "-- DROP TABLE t" ].

Definition with_select_1_plain : Token :=
  grp "WITH c AS (SELECT 1) SELECT 1" with_select_1.

Definition with_select_1_commented : Token :=
  grp "WITH c AS (SELECT 1) SELECT 1 -- DROP TABLE t"
    (with_select_1 ++ [ ws; drop_comment ]).

(** [SELECT 1 -- DROP TABLE t], in two parts. *)
Definition select_1_tokens : list Token :=
  [ tok T.DML "SELECT"; ws; tok T.Integer "1"; ws ].

(** A text of parentheses nested [n] deep. *)
Fixpoint nested_parentheses (n : nat) : string :=
  match n with
  | O => "SELECT 1"
  | S n' => ("(" ++ nested_parentheses n' ++ ")")%string
  end.

(** A tokenizer that raises: [sqlparse.parse] gives up on a text that
    is nested too deep for it. *)
Definition raising (exn : string) : string → outcome (list Token) :=
  λ _, Raised exn.

(** A tokenizer that answers with the given statements. *)
Definition parsed_as (statements : list Token)
  : string → outcome (list Token) :=
  λ _, Returned statements.

End Sample.

Import SQLWriteDetector.
Import Sample.
Local Open Scope list_scope.

(** ** Reasoning about token trees *)

Section TokenInduction.

Variable P : Token → Prop.
Hypothesis P_Leaf : ∀ a, P (Leaf a).
Hypothesis P_Group : ∀ a children, Forall P children → P (Group a children).

Fixpoint Token_ind (token : Token) : P token :=
  match token with
  | Leaf a => P_Leaf a
  | Group a children =>
      P_Group a children
        ((fix all (l : list Token) : Forall P l :=
            match l with
            | [] => @Stdlib.Lists.List.Forall_nil _ P
            | t :: l0 => @Stdlib.Lists.List.Forall_cons _ P t l0 (Token_ind t) (all l0)
            end) children)
  end.

End TokenInduction.

Section Definitions.

Context {U : PyStr.Upper}.

(** [any_token p token]: [p] holds of [token] or of a token nested in it,
    at any depth. *)
Fixpoint any_token (p : Token → bool) (token : Token) : bool :=
  p token ||
  match token with
  | Leaf _ => false
  | Group _ children => existsb (any_token p) children
  end.

(** The write keyword [kw] is a substring of the upper-cased normalized
    text of [token]. *)
Definition mentions (kw : string) (token : Token) : bool :=
  PyStr.contains kw (PyStr.upper (normalized (attrs token))).

(** The token is keyword-classified and its upper-cased normalized text
    is exactly the write keyword [kw]. *)
Definition is_write_keyword (kw : string) (token : Token) : bool :=
  keyword_classified token
  && bool_decide (PyStr.upper (normalized (attrs token)) = kw)
  && bool_decide (kw ∈ write_keywords).

(** What the exact-match test of both searches adds for one token. *)
Definition keyword_operation (token : Token) : gset string :=
  if keyword_classified token then
    if bool_decide (PyStr.upper (normalized (attrs token)) ∈ write_keywords)
    then {[PyStr.upper (normalized (attrs token))]} else ∅
  else ∅.

(** What one round of the loop of [_find_write_operations] adds. *)
Definition token_operations (token : Token) : gset string :=
  if skipped token then ∅
  else keyword_operation token ∪
       match token with
       | Group _ _ => _find_write_operations token
       | Leaf _ => ∅
       end.

(** [searched statement token]: the full search of [statement] reaches
    [token], at any depth, through tokens that are not skipped. *)
Inductive searched (statement : Token) : Token → Prop :=
| searched_top token :
    token ∈ tokens statement → skipped token = false →
    searched statement token
| searched_nested container token :
    searched statement container →
    token ∈ tokens container → skipped token = false →
    searched statement token.

(** [nest n token] wraps [token] in [n] token lists, as [n] pairs of
    parentheses do. *)
Fixpoint nest (n : nat) (token : Token) : Token :=
  match n with
  | O => token
  | S n' => Group (mkAttrs None false false "") [nest n' token]
  end.

(** The token tree with every text in upper case. *)
Fixpoint upper_text (token : Token) : Token :=
  let a := attrs token in
  let a' := mkAttrs (ttype a) (is_keyword a) (is_whitespace a)
                    (PyStr.upper (normalized a)) in
  match token with
  | Leaf _ => Leaf a'
  | Group _ children => Group a' (map upper_text children)
  end.


(** [follows_with statement token]: [token] is one of the tokens of
    [statement], after a WITH keyword of [statement], and is not itself
    a WITH keyword. *)
Definition follows_with (statement token : Token) : Prop :=
  ∃ pre w mid post,
    tokens statement = pre ++ w :: mid ++ token :: post ∧
    is_with w = true ∧ is_with token = false.

(** The statement has a WITH clause and its CTE scan reports a write. *)
Definition cte_write (statement : Token) : bool :=
  _has_cte statement && _analyze_cte statement.

(** What one statement adds to [found_operations]. *)
Definition statement_operations (statement : Token) : gset string :=
  (if cte_write statement then {["CTE_WRITE"]} else ∅)
  ∪ _find_write_operations statement.

(** The result of [analyze_query] when the text is the one statement. *)
Definition statement_result (statement : Token) : AnalysisResult :=
  mkResult
    (negb (bool_decide (statement_operations statement = ∅))
     || cte_write statement)
    (statement_operations statement) (cte_write statement).

(** The result of [analyze_query] in terms of the statements parsed. *)
Definition analysis (parsed : list Token) : AnalysisResult :=
  mkResult
    (negb (bool_decide (⋃ (statement_operations <$> parsed) = ∅))
     || existsb cte_write parsed)
    (⋃ (statement_operations <$> parsed)) (existsb cte_write parsed).

(** Union of the keyword sets, disjunction of the two flags. *)
Definition merge (r1 r2 : AnalysisResult) : AnalysisResult :=
  mkResult (contains_write r1 || contains_write r2)
           (write_operations r1 ∪ write_operations r2)
           (has_cte_write r1 || has_cte_write r2).

Definition no_write : AnalysisResult := mkResult false ∅ false.

(** The token is no WITH keyword, and the full search either skips it
    or finds no keyword-classified token in it. *)
Definition inert (token : Token) : bool :=
  negb (is_with token)
  && (skipped token || negb (any_token keyword_classified token)).

(** Every token of the statement is inert: white space, comments. *)
Definition blank_statement (statement : Token) : bool :=
  forallb inert (tokens statement).

(** Following the wording of the data model: a write keyword occurs
    strictly inside a token that follows the first WITH keyword of the
    statement, that is, in a child of such a token or deeper.  This is
    the widest reading of "inside the body of a WITH clause": it leaves
    out only the tokens of the statement itself. *)
Fixpoint after_with (l : list Token) : list Token :=
  match l with
  | [] => []
  | token :: rest => if is_with token then rest else after_with rest
  end.

Definition write_inside_with_body (statement : Token) : bool :=
  existsb
    (λ token,
       existsb
         (λ kw, existsb (any_token (mentions kw)) (tokens token))
         (elements write_keywords))
    (after_with (tokens statement)).

End Definitions.

(** ** Lemmas *)

Section Properties.

Context {U : PyStr.Upper}.

Section Sets.

Context {A : Type}.

Lemma fold_left_union (g : A → gset string)
    (f : gset string → A → gset string) (l : list A) (init : gset string) :
  (∀ acc x, f acc x = acc ∪ g x) →
  fold_left f l init = init ∪ ⋃ (g <$> l).
Proof.
  intros Hf. revert init.
  induction l as [|x l IH]; intros init; simpl.
  - set_solver.
  - rewrite Hf, IH. set_solver.
Qed.

Lemma existsb_elem_of (p : A → bool) (l : list A) :
  existsb p l = true ↔ ∃ x, x ∈ l ∧ p x = true.
Proof.
  rewrite existsb_exists. setoid_rewrite list_elem_of_In. reflexivity.
Qed.

End Sets.

(** *** Strings *)

Lemma startswith_refl s : PyStr.startswith s s = true.
Proof.
  induction s as [|c s IH]; simpl; [reflexivity|].
  rewrite Ascii.eqb_refl. exact IH.
Qed.

Lemma contains_refl s : PyStr.contains s s = true.
Proof. destruct s; simpl; [reflexivity|]. rewrite Ascii.eqb_refl, startswith_refl. reflexivity. Qed.

(** *** The full search *)

Lemma keyword_operation_spec kw token :
  kw ∈ keyword_operation token ↔ is_write_keyword kw token = true.
Proof.
  unfold keyword_operation, is_write_keyword.
  destruct (keyword_classified token); simpl; [|set_solver].
  case_bool_decide as Hin.
  - rewrite elem_of_singleton, andb_true_iff, !bool_decide_eq_true.
    split; [intros ->; auto | intros [<- _]; reflexivity].
  - rewrite andb_true_iff, !bool_decide_eq_true.
    split; [set_solver | intros [<- ?]; contradiction].
Qed.

Lemma _find_write_operations_Group a children :
  _find_write_operations (Group a children)
  = ⋃ (token_operations <$> children).
Proof.
  change (_find_write_operations (Group a children)) with
    (fold_left
       (λ operations token,
          if skipped token then operations
          else
            let operations :=
              if keyword_classified token then
                let normalized := PyStr.upper (normalized (attrs token)) in
                if bool_decide (normalized ∈ write_keywords)
                then operations ∪ {[normalized]} else operations
              else operations in
            match token with
            | Group _ _ => operations ∪ _find_write_operations token
            | Leaf _ => operations
            end)
       children (∅ : gset string)).
  rewrite (fold_left_union token_operations).
  - set_solver.
  - intros acc token. unfold token_operations, keyword_operation.
    destruct (skipped token); [symmetry; apply (right_id_L ∅ (∪))|].
    destruct (keyword_classified token); [case_bool_decide|];
      destruct token;
      rewrite ?(right_id_L ∅ (∪)), ?(left_id_L ∅ (∪)), ?(assoc_L (∪));
      reflexivity.
Qed.

Lemma _find_write_operations_tokens statement :
  _find_write_operations statement
  = ⋃ (token_operations <$> tokens statement).
Proof.
  destruct statement as [a|a children]; [reflexivity|].
  apply _find_write_operations_Group.
Qed.

Lemma elem_of_find_write_operations kw statement :
  kw ∈ _find_write_operations statement ↔
  ∃ token, token ∈ tokens statement ∧ kw ∈ token_operations token.
Proof.
  rewrite _find_write_operations_tokens, elem_of_union_list.
  split.
  - intros (X & HX & Hkw). apply list_elem_of_fmap in HX as (t & -> & Ht). eauto.
  - intros (t & Ht & Hkw). exists (token_operations t). split; [|exact Hkw].
    apply list_elem_of_fmap. eauto.
Qed.

Lemma elem_of_token_operations kw token :
  kw ∈ token_operations token ↔
  skipped token = false ∧
  (is_write_keyword kw token = true ∨ kw ∈ _find_write_operations token).
Proof.
  unfold token_operations. destruct (skipped token).
  - split; [set_solver | intros [? _]; discriminate].
  - rewrite elem_of_union, keyword_operation_spec.
    destruct token; simpl; set_solver.
Qed.

(** A keyword is in the result of the full search exactly when the
    search reaches a keyword-classified token spelling it. *)
Lemma searched_found kw statement token :
  searched statement token → is_write_keyword kw token = true →
  kw ∈ _find_write_operations statement.
Proof.
  intros Hs Hkw.
  assert (kw ∈ token_operations token) as Hin.
  { apply elem_of_token_operations. inversion Hs; auto. }
  clear Hkw. induction Hs as [token Ht Hsk|container token Hs IH Ht Hsk].
  - apply elem_of_find_write_operations. eauto.
  - apply IH. apply elem_of_token_operations.
    split; [inversion Hs; assumption|]. right.
    apply elem_of_find_write_operations. eauto.
Qed.

Lemma found_searched kw statement :
  kw ∈ _find_write_operations statement →
  ∃ token, searched statement token ∧ is_write_keyword kw token = true.
Proof.
  induction statement as [a|a children IH] using Token_ind.
  - simpl. set_solver.
  - intros Hin. apply elem_of_find_write_operations in Hin as (t & Ht & Hin).
    apply elem_of_token_operations in Hin as (Hsk & [Hkw|Hin]).
    + exists t. split; [apply searched_top; assumption | exact Hkw].
    + rewrite Forall_forall in IH. destruct (IH t Ht Hin) as (u & Hu & Hkw).
      exists u. split; [|exact Hkw].
      clear -Hu Ht Hsk. induction Hu as [u Hu Hsku|c u Hc IHc Hu Hsku].
      * eapply searched_nested; [apply searched_top; eassumption| |]; assumption.
      * eapply searched_nested; eassumption.
Qed.

Lemma _find_write_operations_subseteq statement :
  _find_write_operations statement ⊆ write_keywords.
Proof.
  intros kw Hin. apply found_searched in Hin as (t & _ & Hkw).
  unfold is_write_keyword in Hkw.
  apply andb_true_iff in Hkw as [_ Hkw]. apply bool_decide_eq_true in Hkw. exact Hkw.
Qed.

(** *** The scan of one token of the CTE region *)

Lemma _find_write_operations_in_token_eq token :
  _find_write_operations_in_token token
  = keyword_operation token
    ∪ filter (λ kw, Is_true (mentions kw token)) write_keywords
    ∪ ⋃ (_find_write_operations_in_token <$> tokens token).
Proof.
  destruct token as [a|a children].
  - unfold keyword_operation. simpl.
    destruct (keyword_classified (Leaf a)); [destruct (bool_decide _)|];
      rewrite ?(left_id_L ∅ (∪)), ?(right_id_L ∅ (∪)); reflexivity.
  - change (_find_write_operations_in_token (Group a children)) with
      (fold_left
         (λ operations child_token,
            operations ∪ _find_write_operations_in_token child_token)
         children
         ((if keyword_classified (Group a children) then
             if bool_decide
                  (PyStr.upper (normalized a) ∈ write_keywords)
             then (∅ : gset string) ∪ {[PyStr.upper (normalized a)]}
             else ∅
           else ∅)
          ∪ filter (λ kw, Is_true (mentions kw (Group a children)))
                   write_keywords)).
    rewrite (fold_left_union _find_write_operations_in_token);
      [|reflexivity].
    unfold keyword_operation. simpl.
    destruct (keyword_classified (Group a children));
      [destruct (bool_decide _)|];
      rewrite ?(left_id_L ∅ (∪)), ?(right_id_L ∅ (∪)); reflexivity.
Qed.

Lemma any_token_eq p token :
  any_token p token = p token || existsb (any_token p) (tokens token).
Proof. destruct token; simpl; [rewrite orb_false_r|]; reflexivity. Qed.

Lemma find_write_operations_in_token_step kw token :
  kw ∈ _find_write_operations_in_token token ↔
  (kw ∈ write_keywords ∧ mentions kw token = true) ∨
  ∃ child, child ∈ tokens token ∧
           kw ∈ _find_write_operations_in_token child.
Proof.
  rewrite _find_write_operations_in_token_eq, !elem_of_union, elem_of_filter,
    keyword_operation_spec, elem_of_union_list.
  unfold is_write_keyword. rewrite !andb_true_iff, !bool_decide_eq_true.
  split.
  - intros [[[[_ Heq] Hin]|[Hm Hin]]|(X & HX & HkX)].
    + left. split; [exact Hin|]. unfold mentions. rewrite Heq.
      apply contains_refl.
    + left. split; [exact Hin|]. apply Is_true_eq_true, Hm.
    + right. apply list_elem_of_fmap in HX as (t & -> & Ht). eauto.
  - intros [[Hin Hm]|(t & Ht & Hkt)].
    + left; right. split; [rewrite Hm; exact I | exact Hin].
    + right. exists (_find_write_operations_in_token t).
      split; [apply list_elem_of_fmap; eauto | exact Hkt].
Qed.

Lemma elem_of_find_write_operations_in_token kw token :
  kw ∈ _find_write_operations_in_token token ↔
  kw ∈ write_keywords ∧ any_token (mentions kw) token = true.
Proof.
  induction token as [a|a children IH] using Token_ind;
    rewrite find_write_operations_in_token_step, any_token_eq,
      orb_true_iff, existsb_elem_of; simpl tokens.
  - split.
    + intros [[Hin Hm]|(t & Ht & _)]; [auto | inversion Ht].
    + intros [Hin [Hm|(t & Ht & _)]]; [auto | inversion Ht].
  - rewrite Forall_forall in IH. split.
    + intros [[Hin Hm]|(t & Ht & Hkt)]; [auto|].
      apply (IH t Ht) in Hkt as [Hin Hany]. split; [exact Hin|right; eauto].
    + intros [Hin [Hm|(t & Ht & Hany)]]; [auto|].
      right. exists t. split; [exact Ht|]. apply (IH t Ht). auto.
Qed.

(** A token of the CTE region is reported when and only when a write
    keyword is a substring of its text or of the text of a token nested
    in it. *)
Lemma find_write_operations_in_token_nonempty token :
  _find_write_operations_in_token token ≠ ∅ ↔
  ∃ kw, kw ∈ write_keywords ∧ any_token (mentions kw) token = true.
Proof.
  split.
  - intros Hne. apply set_choose_L in Hne as [kw Hkw].
    exists kw. apply elem_of_find_write_operations_in_token, Hkw.
  - intros (kw & Hkw) Hempty.
    apply elem_of_find_write_operations_in_token in Hkw.
    rewrite Hempty in Hkw. set_solver.
Qed.

(** *** The CTE scan of a statement *)

Lemma _analyze_cte_loop_true in_cte l :
  _analyze_cte_loop in_cte l = true ↔
  ∃ pre token post,
    l = pre ++ token :: post ∧ is_with token = false ∧
    _find_write_operations_in_token token ≠ ∅ ∧
    (in_cte = true ∨ ∃ w, w ∈ pre ∧ is_with w = true).
Proof.
  revert in_cte. induction l as [|t l IH]; intros in_cte; simpl.
  - split; [discriminate|]. intros (pre & ? & ? & Heq & _).
    destruct pre; discriminate.
  - destruct (is_with t) eqn:Hw.
    + rewrite IH. split.
      * intros (pre & u & post & -> & Hu & Hne & _).
        exists (t :: pre), u, post. repeat split; auto.
        right. exists t. split; [left|exact Hw].
      * intros (pre & u & post & Heq & Hu & Hne & _).
        destruct pre as [|t' pre]; simpl in Heq; injection Heq as -> ->;
          [congruence|]. exists pre, u, post. auto.
    + destruct in_cte.
      * case_bool_decide as Hne.
        -- split; [intros _|reflexivity]. exists [], t, l. auto.
        -- rewrite IH. split.
           ++ intros (pre & u & post & -> & Hu & Hne' & _).
              exists (t :: pre), u, post. auto.
           ++ intros (pre & u & post & Heq & Hu & Hne' & _).
              destruct pre as [|t' pre]; simpl in Heq; injection Heq as -> ->;
                [contradiction|]. exists pre, u, post. auto.
      * rewrite IH. split.
        -- intros (pre & u & post & -> & Hu & Hne & [?|(w & Hin & Hww)]);
             [discriminate|].
           exists (t :: pre), u, post. repeat split; auto.
           right. exists w. split; [right; exact Hin|exact Hww].
        -- intros (pre & u & post & Heq & Hu & Hne & [?|(w & Hin & Hww)]);
             [discriminate|].
           destruct pre as [|t' pre]; [inversion Hin|].
           simpl in Heq; injection Heq as -> ->.
           exists pre, u, post. repeat split; auto. right.
           apply elem_of_cons in Hin as [->|Hin]; [congruence|eauto].
Qed.

Lemma _analyze_cte_true statement :
  _analyze_cte statement = true ↔
  ∃ token kw,
    follows_with statement token ∧
    kw ∈ write_keywords ∧ any_token (mentions kw) token = true.
Proof.
  unfold _analyze_cte, follows_with. rewrite _analyze_cte_loop_true. split.
  - intros (pre & t & post & Heq & Ht & Hne & [?|(w & Hin & Hw)]);
      [discriminate|].
    apply find_write_operations_in_token_nonempty in Hne as (kw & Hkw & Hany).
    apply list_elem_of_split in Hin as (pre' & mid & ->).
    exists t, kw. split; [|auto].
    exists pre', w, mid, post. rewrite Heq, <- app_assoc. auto.
  - intros (t & kw & (pre & w & mid & post & Heq & Hw & Ht) & Hkw & Hany).
    exists (pre ++ w :: mid), t, post. rewrite Heq, <- app_assoc.
    repeat split; auto.
    + apply find_write_operations_in_token_nonempty. eauto.
    + right. exists w. split; [|exact Hw]. apply elem_of_app. right. left.
Qed.

Lemma _analyze_cte_has_cte statement :
  _analyze_cte statement = true → _has_cte statement = true.
Proof.
  intros H. apply _analyze_cte_true in H
    as (t & kw & (pre & w & mid & post & Heq & Hw & _) & _).
  unfold _has_cte. apply existsb_elem_of. exists w. split; [|exact Hw].
  rewrite Heq. apply elem_of_app. right. left.
Qed.

(** *** The loop over the statements *)

Lemma analyze_loop parsed found cte :
  fold_left
    (λ '(found_operations, has_cte_write) statement,
       let '(found_operations, has_cte_write) :=
         if _has_cte statement && _analyze_cte statement
         then (found_operations ∪ {["CTE_WRITE"]}, true)
         else (found_operations, has_cte_write) in
       let operations := _find_write_operations statement in
       (found_operations ∪ operations, has_cte_write))
    parsed (found, cte)
  = (found ∪ ⋃ (statement_operations <$> parsed),
     cte || existsb cte_write parsed).
Proof.
  revert found cte. induction parsed as [|s l IH]; intros found cte.
  - simpl. rewrite orb_false_r. f_equal. set_solver.
  - assert (statement_operations s
            = (if _has_cte s && _analyze_cte s
               then {["CTE_WRITE"]} else (∅ : gset string))
              ∪ _find_write_operations s) as Hs by reflexivity.
    assert (cte_write s = _has_cte s && _analyze_cte s) as Hc
      by reflexivity.
    rewrite fmap_cons, union_list_cons. cbn [fold_left existsb].
    rewrite Hs, Hc.
    destruct (_has_cte s && _analyze_cte s); rewrite IH; f_equal;
      rewrite ?(left_id_L ∅ (∪)), ?(assoc_L (∪)), ?orb_true_r;
      reflexivity.
Qed.

Lemma analyze_query_Returned parse sql parsed :
  parse sql = Returned parsed →
  analyze_query parse sql = Returned (analysis parsed).
Proof.
  intros Hp. unfold analyze_query. rewrite Hp.
  destruct parsed as [|s l]; [reflexivity|].
  rewrite analyze_loop. unfold analysis.
  rewrite (left_id_L ∅ (∪)). reflexivity.
Qed.

Lemma analyze_query_Raised parse sql exn :
  parse sql = Raised exn → analyze_query parse sql = Raised exn.
Proof. intros Hp. unfold analyze_query. rewrite Hp. reflexivity. Qed.

Lemma elem_of_statement_operations kw statement :
  kw ∈ statement_operations statement ↔
  (kw = "CTE_WRITE" ∧ cte_write statement = true) ∨
  kw ∈ _find_write_operations statement.
Proof.
  unfold statement_operations. destruct (cte_write statement); set_solver.
Qed.

Lemma elem_of_analysis_operations kw parsed :
  kw ∈ write_operations (analysis parsed) ↔
  ∃ statement, statement ∈ parsed ∧ kw ∈ statement_operations statement.
Proof.
  simpl. rewrite elem_of_union_list. split.
  - intros (X & HX & Hkw). apply list_elem_of_fmap in HX as (s & -> & Hs). eauto.
  - intros (s & Hs & Hkw). exists (statement_operations s).
    split; [apply list_elem_of_fmap; eauto | exact Hkw].
Qed.

Lemma has_cte_write_analysis parsed :
  has_cte_write (analysis parsed) = true ↔
  ∃ statement, statement ∈ parsed ∧ cte_write statement = true.
Proof. simpl. apply existsb_elem_of. Qed.

Lemma cte_write_true statement :
  cte_write statement = true ↔ _analyze_cte statement = true.
Proof.
  unfold cte_write. rewrite andb_true_iff. split; [tauto|].
  intros H. split; [apply _analyze_cte_has_cte|]; exact H.
Qed.

Lemma contains_write_analysis parsed :
  contains_write (analysis parsed) = true ↔
  write_operations (analysis parsed) ≠ ∅ ∨
  has_cte_write (analysis parsed) = true.
Proof.
  simpl. rewrite orb_true_iff, negb_true_iff, bool_decide_eq_false. tauto.
Qed.

Lemma marker_not_keyword : "CTE_WRITE" ∉ write_keywords.
Proof. vm_compute. intros H. inversion H. Qed.

(** *** Statements without keywords *)

Lemma searched_inside statement container token :
  container ∈ tokens statement → skipped container = false →
  searched container token → searched statement token.
Proof.
  intros Hc Hsk Hs.
  induction Hs as [u Hu Hsku|c u Hsc IHc Hu Hsku].
  - eapply searched_nested; [apply searched_top; eassumption| |]; assumption.
  - eapply searched_nested; eassumption.
Qed.

Lemma searched_any_token p statement token :
  searched statement token → p token = true →
  existsb (any_token p) (tokens statement) = true.
Proof.
  intros Hs Hp.
  assert (any_token p token = true) as Hany.
  { rewrite any_token_eq, Hp. reflexivity. }
  clear Hp. induction Hs as [u Hu _|c u Hsc IHc Hu _].
  - apply existsb_elem_of. eauto.
  - apply IHc. rewrite any_token_eq. apply orb_true_iff. right.
    apply existsb_elem_of. eauto.
Qed.

Lemma no_keyword_no_operations statement :
  existsb (any_token keyword_classified) (tokens statement) = false →
  _find_write_operations statement = ∅.
Proof.
  intros Hno. apply set_eq. intros kw. split; [|set_solver].
  intros Hin. apply found_searched in Hin as (t & Hs & Hkw).
  unfold is_write_keyword in Hkw. rewrite !andb_true_iff in Hkw.
  destruct Hkw as [[Hkc _] _].
  rewrite (searched_any_token _ _ _ Hs Hkc) in Hno. discriminate.
Qed.

Lemma quiet_token_operations token :
  skipped token = true ∨ any_token keyword_classified token = false →
  token_operations token = ∅.
Proof.
  unfold token_operations.
  intros [Hsk|Hno]; [rewrite Hsk; reflexivity|].
  destruct (skipped token); [reflexivity|].
  rewrite any_token_eq in Hno.
  apply orb_false_iff in Hno as [Hkc Hno].
  unfold keyword_operation. rewrite Hkc.
  destruct token; [apply (left_id_L ∅ (∪))|].
  rewrite (no_keyword_no_operations _ Hno). apply (left_id_L ∅ (∪)).
Qed.

Lemma inert_token_operations token :
  inert token = true → token_operations token = ∅.
Proof.
  unfold inert. rewrite andb_true_iff, orb_true_iff.
  intros [_ [Hsk|Hno]]; apply quiet_token_operations; [left; exact Hsk|].
  right. apply negb_true_iff, Hno.
Qed.

Lemma blank_statement_operations statement :
  blank_statement statement = true → statement_operations statement = ∅.
Proof.
  unfold blank_statement. rewrite forallb_forall. intros Hall.
  assert (_has_cte statement = false) as Hcte.
  { unfold _has_cte. apply not_true_is_false. intros Hex.
    apply existsb_exists in Hex as (t & Ht & Hw).
    specialize (Hall t Ht). unfold inert in Hall. rewrite Hw in Hall.
    discriminate. }
  unfold statement_operations, cte_write. rewrite Hcte. simpl.
  rewrite _find_write_operations_tokens. apply set_eq. intros kw.
  split; [|set_solver]. rewrite elem_of_union, elem_of_union_list.
  intros [?|(X & HX & Hkw)]; [set_solver|].
  apply list_elem_of_fmap in HX as (t & -> & Ht).
  rewrite inert_token_operations in Hkw; [exact Hkw|].
  apply Hall, list_elem_of_In, Ht.
Qed.

Lemma blank_statement_cte statement :
  blank_statement statement = true → cte_write statement = false.
Proof.
  unfold blank_statement. rewrite forallb_forall. intros Hall.
  unfold cte_write, _has_cte. apply andb_false_iff. left.
  apply not_true_is_false. intros Hex.
  apply existsb_exists in Hex as (t & Ht & Hw).
  specialize (Hall t Ht). unfold inert in Hall. rewrite Hw in Hall.
  discriminate.
Qed.

Lemma analysis_blank parsed :
  forallb blank_statement parsed = true → analysis parsed = no_write.
Proof.
  rewrite forallb_forall. intros Hall.
  assert (⋃ (statement_operations <$> parsed) = (∅ : gset string)) as Hops.
  { apply set_eq. intros kw. split; [|set_solver].
    rewrite elem_of_union_list. intros (X & HX & Hkw).
    apply list_elem_of_fmap in HX as (s & -> & Hs).
    rewrite blank_statement_operations in Hkw; [exact Hkw|].
    apply Hall, list_elem_of_In, Hs. }
  assert (existsb cte_write parsed = false) as Hcte.
  { apply not_true_is_false. intros Hex.
    apply existsb_exists in Hex as (s & Hs & Hc).
    rewrite blank_statement_cte in Hc; [discriminate|]. apply Hall, Hs. }
  unfold analysis, no_write. rewrite Hops, Hcte.
  rewrite bool_decide_eq_true_2; reflexivity.
Qed.

(** *** Merging statements *)

Lemma analysis_cons statement parsed :
  analysis (statement :: parsed)
  = merge (statement_result statement) (analysis parsed).
Proof.
  unfold analysis, merge, statement_result.
  rewrite fmap_cons, union_list_cons. cbn [existsb].
  cbn [contains_write write_operations has_cte_write]. f_equal.
  set (A := statement_operations statement).
  set (B := ⋃ (statement_operations <$> parsed)).
  destruct (decide (A = ∅)) as [HA|HA], (decide (B = ∅)) as [HB|HB].
  - rewrite !bool_decide_eq_true_2 by set_solver. simpl.
    destruct (cte_write statement); reflexivity.
  - rewrite (bool_decide_eq_true_2 (A = ∅)) by exact HA.
    rewrite !bool_decide_eq_false_2 by set_solver. simpl.
    destruct (cte_write statement); reflexivity.
  - rewrite !bool_decide_eq_false_2 by set_solver. reflexivity.
  - rewrite !bool_decide_eq_false_2 by set_solver. reflexivity.
Qed.

Lemma analysis_foldr parsed :
  analysis parsed = foldr merge no_write (statement_result <$> parsed).
Proof.
  induction parsed as [|s l IH]; [reflexivity|].
  rewrite analysis_cons, IH. reflexivity.
Qed.

Lemma analysis_singleton statement :
  analysis [statement] = statement_result statement.
Proof.
  unfold analysis, statement_result. simpl.
  rewrite (right_id_L ∅ (∪)), orb_false_r. reflexivity.
Qed.

Lemma analysis_Permutation parsed parsed' :
  parsed ≡ₚ parsed' → analysis parsed = analysis parsed'.
Proof.
  intros Hp. unfold analysis.
  assert (⋃ (statement_operations <$> parsed)
          = ⋃ (statement_operations <$> parsed')) as ->.
  { apply set_eq. intros kw. rewrite !elem_of_union_list.
    split; intros (X & HX & Hkw); exists X; split; auto;
      apply list_elem_of_fmap in HX as (s & -> & Hs);
      apply list_elem_of_fmap; exists s; split; auto.
    - rewrite <- Hp. exact Hs.
    - rewrite Hp. exact Hs. }
  assert (existsb cte_write parsed = existsb cte_write parsed') as ->;
    [|reflexivity].
  apply eq_true_iff_eq. rewrite !existsb_elem_of.
  split; intros (s & Hs & Hc); exists s; split; auto.
  - rewrite <- Hp. exact Hs.
  - rewrite Hp. exact Hs.
Qed.

(** *** The two searches compared *)

Lemma is_write_keyword_mentions kw token :
  is_write_keyword kw token = true → mentions kw token = true.
Proof.
  unfold is_write_keyword, mentions. rewrite !andb_true_iff.
  intros [[_ Heq] _]. apply bool_decide_eq_true in Heq. rewrite Heq.
  apply contains_refl.
Qed.

Lemma find_write_operations_any_token kw token :
  kw ∈ _find_write_operations token →
  kw ∈ write_keywords ∧
  existsb (any_token (mentions kw)) (tokens token) = true.
Proof.
  intros Hin. split; [apply (_find_write_operations_subseteq token), Hin|].
  apply found_searched in Hin as (u & Hs & Hkw).
  apply (searched_any_token _ _ u Hs), is_write_keyword_mentions, Hkw.
Qed.

Lemma find_write_operations_within_scan token :
  _find_write_operations token ⊆ _find_write_operations_in_token token.
Proof.
  intros kw Hin. apply find_write_operations_any_token in Hin as [Hkw Hex].
  apply elem_of_find_write_operations_in_token. split; [exact Hkw|].
  rewrite any_token_eq, Hex. apply orb_true_r.
Qed.

Lemma token_operations_any_token kw token :
  kw ∈ token_operations token →
  kw ∈ write_keywords ∧ any_token (mentions kw) token = true.
Proof.
  intros Hin. apply elem_of_token_operations in Hin as [_ [Hkw|Hin]].
  - split.
    + unfold is_write_keyword in Hkw. rewrite !andb_true_iff in Hkw.
      destruct Hkw as [_ Hkw]. apply bool_decide_eq_true in Hkw. exact Hkw.
    + rewrite any_token_eq, (is_write_keyword_mentions _ _ Hkw). reflexivity.
  - apply find_write_operations_any_token in Hin as [Hkw Hex].
    split; [exact Hkw|]. rewrite any_token_eq, Hex. apply orb_true_r.
Qed.

Lemma find_write_operations_single a token :
  _find_write_operations (Group a [token]) = token_operations token.
Proof.
  rewrite _find_write_operations_Group. simpl.
  apply (right_id_L ∅ (∪)).
Qed.

Lemma find_write_operations_app a a1 a2 l1 l2 :
  _find_write_operations (Group a (l1 ++ l2))
  = _find_write_operations (Group a1 l1)
    ∪ _find_write_operations (Group a2 l2).
Proof.
  rewrite !_find_write_operations_Group, fmap_app.
  apply union_list_app_L.
Qed.

(** *** Nesting *)

Lemma searched_nest n token :
  skipped token = false → searched (nest (S n) token) token.
Proof.
  intros Hsk. induction n as [|n IH].
  - apply searched_top; [left | exact Hsk].
  - apply (searched_inside _ (nest (S n) token));
      [left | reflexivity | exact IH].
Qed.

(** *** The loop of the CTE scan *)

Lemma _analyze_cte_loop_before in_cte pre rest :
  existsb is_with pre = false →
  (in_cte = false ∨
   ∀ token, token ∈ pre → _find_write_operations_in_token token = ∅) →
  _analyze_cte_loop in_cte (pre ++ rest) = _analyze_cte_loop in_cte rest.
Proof.
  induction pre as [|t pre IH]; intros Hno Hc; [reflexivity|].
  simpl in Hno. apply orb_false_iff in Hno as [Ht Hno]. simpl. rewrite Ht.
  destruct Hc as [->|Hc].
  - apply IH; auto.
  - destruct in_cte.
    + rewrite (Hc t) by left.
      rewrite bool_decide_eq_false_2 by (intros H; apply H; reflexivity).
      apply IH; [exact Hno|]. right. intros u Hu. apply Hc. right. exact Hu.
    + apply IH; auto.
Qed.

(** *** Texts without write keywords *)




(** *** Upper case *)

Lemma upper_ascii_idempotent c :
  PyStr.upper_ascii (PyStr.upper_ascii c) = PyStr.upper_ascii c.
Proof. destruct c as [[] [] [] [] [] [] [] []]; reflexivity. Qed.

Lemma upper_ascii_text_idempotent s :
  PyStr.upper_ascii_text (PyStr.upper_ascii_text s)
  = PyStr.upper_ascii_text s.
Proof.
  induction s as [|c s IH]; simpl; [reflexivity|].
  rewrite upper_ascii_idempotent, IH. reflexivity.
Qed.

Lemma upper_text_attrs token :
  ttype (attrs (upper_text token)) = ttype (attrs token)
  ∧ is_keyword (attrs (upper_text token)) = is_keyword (attrs token)
  ∧ is_whitespace (attrs (upper_text token)) = is_whitespace (attrs token)
  ∧ PyStr.upper (normalized (attrs (upper_text token)))
    = PyStr.upper (normalized (attrs token)).
Proof.
  destruct token; simpl; repeat split; apply PyStr.upper_idempotent.
Qed.

Lemma upper_text_tests token :
  skipped (upper_text token) = skipped token
  ∧ keyword_classified (upper_text token) = keyword_classified token
  ∧ keyword_operation (upper_text token) = keyword_operation token
  ∧ ∀ kw, mentions kw (upper_text token) = mentions kw token.
Proof.
  destruct (upper_text_attrs token) as (Ht & Hk & Hw & Hn).
  assert (keyword_classified (upper_text token) = keyword_classified token)
    as Hkc.
  { unfold keyword_classified, ttype_in. rewrite Ht, Hk. reflexivity. }
  unfold skipped, keyword_operation, mentions, ttype_in.
  rewrite Hkc, Ht, Hw, Hn. repeat split; reflexivity.
Qed.

Lemma upper_text_tokens token :
  tokens (upper_text token) = upper_text <$> tokens token.
Proof. destruct token; reflexivity. Qed.

Lemma upper_text_find_write_operations token :
  _find_write_operations (upper_text token) = _find_write_operations token.
Proof.
  induction token as [a|a children IH] using Token_ind; [reflexivity|].
  rewrite !_find_write_operations_tokens, upper_text_tokens.
  simpl tokens. rewrite <- list_fmap_compose. f_equal.
  apply Forall_fmap_ext_1. rewrite Forall_forall in IH |- *.
  intros t Ht. simpl. unfold token_operations.
  destruct (upper_text_tests t) as (-> & _ & -> & _).
  destruct t as [b|b ch]; [reflexivity|].
  change (Group _ (map upper_text ch)) with (upper_text (Group b ch)).
  rewrite (IH _ Ht). reflexivity.
Qed.

Lemma upper_text_find_write_operations_in_token token :
  _find_write_operations_in_token (upper_text token)
  = _find_write_operations_in_token token.
Proof.
  induction token as [a|a children IH] using Token_ind;
    rewrite (_find_write_operations_in_token_eq (upper_text _)),
      (_find_write_operations_in_token_eq (Leaf a)) ||
    rewrite (_find_write_operations_in_token_eq (upper_text _)),
      (_find_write_operations_in_token_eq (Group a children)).
  - destruct (upper_text_tests (Leaf a)) as (_ & _ & -> & Hm).
    f_equal. f_equal. apply set_eq. intros kw.
    rewrite !elem_of_filter, Hm. reflexivity.
  - destruct (upper_text_tests (Group a children)) as (_ & _ & -> & Hm).
    rewrite upper_text_tokens. simpl tokens. f_equal.
    + f_equal. apply set_eq. intros kw.
      rewrite !elem_of_filter, Hm. reflexivity.
    + rewrite <- list_fmap_compose. f_equal.
      apply Forall_fmap_ext_1. exact IH.
Qed.

(** ** The properties of the specification *)

(** C1, amended: [has_cte_write] is true only when some statement has a
    WITH keyword among its tokens and a later token of that statement,
    CTE definition or main query alike, holds a write keyword as a
    substring of its upper-cased text or of the text of a token nested
    in it. *)
Theorem has_cte_write_only_after_with
    (parse : string → outcome (list Token)) (sql : string)
    (parsed : list Token) (r : AnalysisResult) :
  parse sql = Returned parsed →
  analyze_query parse sql = Returned r →
  has_cte_write r = true →
  ∃ statement token kw,
    statement ∈ parsed ∧ follows_with statement token ∧
    kw ∈ write_keywords ∧ any_token (mentions kw) token = true.
Proof.
  intros Hp Hr Hc. rewrite (analyze_query_Returned _ _ _ Hp) in Hr.
  injection Hr as <-.
  apply has_cte_write_analysis in Hc as (s & Hs & Hc).
  apply cte_write_true, _analyze_cte_true in Hc as (t & kw & Hf & Hkw & Hm).
  exists s, t, kw. auto.
Qed.

(** C2, amended: whenever the tokenizer returns the statements of the
    text, the analysis returns a result, the one that the two scans of
    those statements give; the detector raises nothing of its own.
    When the tokenizer raises, the analysis raises the same exception
    to its caller. *)
Theorem analyze_query_returns
    (parse : string → outcome (list Token)) (sql : string) :
  (∀ parsed,
     parse sql = Returned parsed →
     ∃ r, analyze_query parse sql = Returned r ∧
          (contains_write r = true ↔
           ∃ statement, statement ∈ parsed ∧
             (_find_write_operations statement ≠ ∅ ∨
              _analyze_cte statement = true)))
  ∧ (∀ exn, parse sql = Raised exn →
            analyze_query parse sql = Raised exn).
Proof.
  split; [|intros exn; apply analyze_query_Raised].
  intros parsed Hp. exists (analysis parsed).
  split; [apply analyze_query_Returned, Hp|].
  rewrite contains_write_analysis. split.
  - intros [Hne|Hc].
    + apply set_choose_L in Hne as [kw Hkw].
      apply elem_of_analysis_operations in Hkw as (s & Hs & Hkw).
      exists s. split; [exact Hs|].
      apply elem_of_statement_operations in Hkw as [[_ Hc]|Hkw].
      * right. apply cte_write_true, Hc.
      * left. intros Hempty. rewrite Hempty in Hkw.
        apply elem_of_empty in Hkw. exact Hkw.
    + apply has_cte_write_analysis in Hc as (s & Hs & Hc).
      exists s. split; [exact Hs|]. right. apply cte_write_true, Hc.
  - intros (s & Hs & [Hne|Hc]).
    + left. apply set_choose_L in Hne as [kw Hkw]. intros Hempty.
      assert (kw ∈ write_operations (analysis parsed)) as Hin.
      { apply elem_of_analysis_operations. exists s. split; [exact Hs|].
        apply elem_of_statement_operations. right. exact Hkw. }
      rewrite Hempty in Hin. apply elem_of_empty in Hin. exact Hin.
    + right. apply has_cte_write_analysis. exists s. split; [exact Hs|].
      apply cte_write_true, Hc.
Qed.

(** C3: the operations reported are write keywords or the marker
    CTE_WRITE, nothing else. *)
Theorem write_operations_subset
    (parse : string → outcome (list Token)) (sql : string)
    (r : AnalysisResult) :
  analyze_query parse sql = Returned r →
  write_operations r ⊆ write_keywords ∪ {["CTE_WRITE"]}.
Proof.
  intros Hr. destruct (parse sql) as [parsed|exn] eqn:Hp.
  - rewrite (analyze_query_Returned _ _ _ Hp) in Hr. injection Hr as <-.
    intros kw Hkw.
    apply elem_of_analysis_operations in Hkw as (s & _ & Hkw).
    apply elem_of_statement_operations in Hkw as [[-> _]|Hkw].
    + set_solver.
    + apply elem_of_union. left.
      apply (_find_write_operations_subseteq s), Hkw.
  - rewrite (analyze_query_Raised _ _ _ Hp) in Hr. discriminate.
Qed.

(** C4: [contains_write] holds exactly when an operation was found or
    the CTE flag is set, and the CTE flag brings the marker CTE_WRITE
    into the operations. *)
Theorem result_consistent
    (parse : string → outcome (list Token)) (sql : string)
    (r : AnalysisResult) :
  analyze_query parse sql = Returned r →
  (contains_write r = true ↔
   write_operations r ≠ ∅ ∨ has_cte_write r = true)
  ∧ (has_cte_write r = true → "CTE_WRITE" ∈ write_operations r).
Proof.
  intros Hr. destruct (parse sql) as [parsed|exn] eqn:Hp.
  - rewrite (analyze_query_Returned _ _ _ Hp) in Hr. injection Hr as <-.
    split; [apply contains_write_analysis|].
    intros Hc. apply has_cte_write_analysis in Hc as (s & Hs & Hc).
    apply elem_of_analysis_operations. exists s. split; [exact Hs|].
    apply elem_of_statement_operations. left. auto.
  - rewrite (analyze_query_Raised _ _ _ Hp) in Hr. discriminate.
Qed.

(** C5, amended: in the full search a token that is white space or
    whose type is Comment itself is passed over with everything it
    contains, and a comment as the tokenizer yields it, a token in which
    nothing is keyword-classified, adds nothing either: the search gives
    the same keywords as if the token were not there. *)
Theorem skipped_token_ignored
    (a : Attrs) (pre post : list Token) (token : Token) :
  skipped token = true ∨ any_token keyword_classified token = false →
  _find_write_operations (Group a (pre ++ token :: post))
  = _find_write_operations (Group a (pre ++ post)).
Proof.
  intros Hq. rewrite !_find_write_operations_Group, !fmap_app, fmap_cons.
  rewrite !union_list_app_L, union_list_cons.
  rewrite (quiet_token_operations _ Hq), (left_id_L ∅ (∪)). reflexivity.
Qed.

(** C6: in the scan of the tokens after WITH a write keyword counts as
    soon as it is a substring of the upper-cased text of a token, at any
    depth and whatever the kind of the token; the CTE flag is then set
    and the marker added. *)
Theorem cte_scan_matches_substrings
    (parse : string → outcome (list Token)) (sql : string)
    (parsed : list Token) (statement token : Token) (kw : string) :
  parse sql = Returned parsed →
  statement ∈ parsed →
  follows_with statement token →
  kw ∈ write_keywords →
  any_token (mentions kw) token = true →
  ∃ r, analyze_query parse sql = Returned r ∧
       has_cte_write r = true ∧ "CTE_WRITE" ∈ write_operations r.
Proof.
  intros Hp Hs Hf Hkw Hm. exists (analysis parsed).
  split; [apply analyze_query_Returned, Hp|].
  assert (cte_write statement = true) as Hc.
  { apply cte_write_true, _analyze_cte_true. eauto. }
  split.
  - apply has_cte_write_analysis. eauto.
  - apply elem_of_analysis_operations. exists statement.
    split; [exact Hs|]. apply elem_of_statement_operations. auto.
Qed.

(** C7: a text without statements gives the all-false result with no
    operations, and so does a text whose statements hold nothing but
    white space and comments. *)
Theorem no_statements_all_false
    (parse : string → outcome (list Token)) (sql : string)
    (parsed : list Token) :
  parse sql = Returned parsed →
  parsed = [] ∨ forallb blank_statement parsed = true →
  analyze_query parse sql = Returned (mkResult false ∅ false).
Proof.
  intros Hp Hb. rewrite (analyze_query_Returned _ _ _ Hp).
  f_equal. apply analysis_blank.
  destruct Hb as [->|Hb]; [reflexivity | exact Hb].
Qed.

(** C8: a keyword-classified token whose upper-cased text is a write
    keyword is reported wherever the full search reaches it, at any
    depth of nesting; the search reaches every token that neither is
    skipped nor lies in a skipped token. *)
Theorem nested_keyword_found
    (parse : string → outcome (list Token)) (sql : string)
    (parsed : list Token) (statement token : Token) :
  parse sql = Returned parsed →
  statement ∈ parsed →
  searched statement token →
  keyword_classified token = true →
  PyStr.upper (normalized (attrs token)) ∈ write_keywords →
  ∃ r, analyze_query parse sql = Returned r ∧
       PyStr.upper (normalized (attrs token)) ∈ write_operations r ∧
       contains_write r = true.
Proof.
  intros Hp Hs Hsearch Hkc Hkw. exists (analysis parsed).
  split; [apply analyze_query_Returned, Hp|].
  assert (PyStr.upper (normalized (attrs token))
          ∈ write_operations (analysis parsed)) as Hin.
  { apply elem_of_analysis_operations. exists statement.
    split; [exact Hs|]. apply elem_of_statement_operations. right.
    apply (searched_found _ _ token Hsearch).
    unfold is_write_keyword. rewrite Hkc.
    rewrite !bool_decide_eq_true_2; auto. }
  split; [exact Hin|].
  apply contains_write_analysis. left. intros Hempty.
  rewrite Hempty in Hin. set_solver.
Qed.

(** C9: the result for several statements is the merge of the results
    for each statement alone, by union of the operations and
    disjunction of the flags; it does not depend on the order of the
    statements, and one writing statement among them is enough for
    [contains_write] and for its keyword to be reported. *)
Theorem statements_merge
    (parse : string → outcome (list Token)) (sql : string)
    (parsed : list Token) :
  parse sql = Returned parsed →
  analyze_query parse sql
  = Returned (foldr merge no_write (statement_result <$> parsed))
  ∧ (∀ statement parse1 sql1,
       parse1 sql1 = Returned [statement] →
       analyze_query parse1 sql1 = Returned (statement_result statement))
  ∧ (∀ parse' sql' parsed',
       parse' sql' = Returned parsed' → parsed ≡ₚ parsed' →
       analyze_query parse' sql' = analyze_query parse sql)
  ∧ (∀ statement kw,
       statement ∈ parsed → kw ∈ _find_write_operations statement →
       ∃ r, analyze_query parse sql = Returned r ∧
            contains_write r = true ∧ kw ∈ write_operations r).
Proof.
  intros Hp. rewrite (analyze_query_Returned _ _ _ Hp).
  split; [f_equal; apply analysis_foldr|]. split; [|split].
  - intros s parse1 sql1 Hp1. rewrite (analyze_query_Returned _ _ _ Hp1).
    f_equal. apply analysis_singleton.
  - intros parse' sql' parsed' Hp' Hperm.
    rewrite (analyze_query_Returned _ _ _ Hp'). f_equal. symmetry.
    apply analysis_Permutation, Hperm.
  - intros s kw Hs Hkw. exists (analysis parsed). split; [reflexivity|].
    assert (kw ∈ write_operations (analysis parsed)) as Hin.
    { apply elem_of_analysis_operations. exists s. split; [exact Hs|].
      apply elem_of_statement_operations. auto. }
    split; [|exact Hin]. apply contains_write_analysis. left.
    intros Hempty. rewrite Hempty in Hin. set_solver.
Qed.

(** C10: the CTE scan gives the result its flag and the one marker
    CTE_WRITE; every other operation comes from the full search.  When
    the scan matches and the full search finds nothing, the operations
    are the marker alone. *)
Theorem cte_scan_adds_marker_only
    (parse : string → outcome (list Token)) (sql : string)
    (parsed : list Token) (r : AnalysisResult) :
  parse sql = Returned parsed →
  analyze_query parse sql = Returned r →
  write_operations r
  = (if has_cte_write r then {["CTE_WRITE"]} else ∅)
    ∪ ⋃ (_find_write_operations <$> parsed)
  ∧ (has_cte_write r = true →
     (∀ statement, statement ∈ parsed →
                   _find_write_operations statement = ∅) →
     write_operations r = {["CTE_WRITE"]}).
Proof.
  intros Hp Hr. rewrite (analyze_query_Returned _ _ _ Hp) in Hr.
  injection Hr as <-.
  assert (write_operations (analysis parsed)
          = (if has_cte_write (analysis parsed)
             then {["CTE_WRITE"]} else ∅)
            ∪ ⋃ (_find_write_operations <$> parsed)) as Heq.
  { apply set_eq. intros kw.
    rewrite elem_of_analysis_operations, elem_of_union, elem_of_union_list.
    split.
    - intros (s & Hs & Hkw).
      apply elem_of_statement_operations in Hkw as [[-> Hc]|Hkw].
      + left. assert (has_cte_write (analysis parsed) = true) as ->.
        { apply has_cte_write_analysis. eauto. }
        set_solver.
      + right. exists (_find_write_operations s).
        split; [apply list_elem_of_fmap; eauto | exact Hkw].
    - intros [Hkw|(X & HX & Hkw)].
      + destruct (has_cte_write (analysis parsed)) eqn:Hc; [|set_solver].
        apply has_cte_write_analysis in Hc as (s & Hs & Hc).
        exists s. split; [exact Hs|].
        apply elem_of_statement_operations. left.
        split; [set_solver | exact Hc].
      + apply list_elem_of_fmap in HX as (s & -> & Hs). exists s.
        split; [exact Hs|]. apply elem_of_statement_operations. auto. }
  split; [exact Heq|]. intros Hc Hnone. rewrite Heq, Hc.
  apply set_eq. intros kw. rewrite elem_of_union, elem_of_union_list.
  split; [|auto]. intros [Hkw|(X & HX & Hkw)]; [exact Hkw|].
  apply list_elem_of_fmap in HX as (s & -> & Hs).
  rewrite (Hnone s Hs) in Hkw. set_solver.
Qed.

(** ** Further properties of the detector *)

(** X1: the full search reports a keyword exactly when it reaches, at
    some depth and through tokens it does not skip, a
    keyword-classified token whose upper-cased text is that write
    keyword. *)
Theorem full_search_exact (kw : string) (statement : Token) :
  kw ∈ _find_write_operations statement ↔
  ∃ token,
    searched statement token ∧ keyword_classified token = true ∧
    PyStr.upper (normalized (attrs token)) = kw ∧ kw ∈ write_keywords.
Proof.
  split.
  - intros Hin. apply found_searched in Hin as (t & Hs & Hkw).
    unfold is_write_keyword in Hkw. rewrite !andb_true_iff in Hkw.
    destruct Hkw as [[Hkc Heq] Hw]. apply bool_decide_eq_true in Heq, Hw.
    exists t. auto.
  - intros (t & Hs & Hkc & Heq & Hw). apply (searched_found _ _ t Hs).
    unfold is_write_keyword. rewrite Hkc.
    rewrite !bool_decide_eq_true_2; auto.
Qed.

(** X2: the scan of a token of the CTE region reports a write keyword
    exactly when the keyword is a substring of the upper-cased text of
    the token or of a token nested in it; whether a token is
    keyword-classified makes no difference to it. *)
Theorem token_scan_exact (kw : string) (token : Token) :
  kw ∈ _find_write_operations_in_token token ↔
  kw ∈ write_keywords ∧ any_token (mentions kw) token = true.
Proof. apply elem_of_find_write_operations_in_token. Qed.

(** X3: whatever the full search finds in a token, the scan of the CTE
    region finds as well. *)
Theorem full_search_within_token_scan (token : Token) :
  _find_write_operations token ⊆ _find_write_operations_in_token token.
Proof. apply find_write_operations_within_scan. Qed.

(** X4: the CTE scan of a statement reports nothing unless the
    statement has a WITH keyword, so the test [_has_cte] in front of it
    never changes the outcome. *)
Theorem has_cte_guard_redundant (statement : Token) :
  _has_cte statement && _analyze_cte statement = _analyze_cte statement.
Proof.
  destruct (_analyze_cte statement) eqn:Hc; [|apply andb_false_r].
  rewrite (_analyze_cte_has_cte _ Hc). reflexivity.
Qed.

(** X5: when no statement has a WITH keyword among its own tokens, the
    CTE flag stays false and the marker is not reported, also when a
    WITH clause with a write sits inside a parenthesis. *)
Theorem no_top_level_with_no_cte_flag
    (parse : string → outcome (list Token)) (sql : string)
    (parsed : list Token) (r : AnalysisResult) :
  parse sql = Returned parsed →
  analyze_query parse sql = Returned r →
  (∀ statement, statement ∈ parsed → _has_cte statement = false) →
  has_cte_write r = false ∧ ("CTE_WRITE" ∉ write_operations r) ∧
  (write_operations r ⊆ write_keywords).
Proof.
  intros Hp Hr Hno. rewrite (analyze_query_Returned _ _ _ Hp) in Hr.
  injection Hr as <-.
  assert (∀ s, s ∈ parsed → cte_write s = false) as Hc.
  { intros s Hs. unfold cte_write. rewrite (Hno s Hs). reflexivity. }
  assert (∀ kw, kw ∈ write_operations (analysis parsed) →
                ∃ s, s ∈ parsed ∧ kw ∈ _find_write_operations s) as Hops.
  { intros kw Hkw.
    apply elem_of_analysis_operations in Hkw as (s & Hs & Hkw).
    apply elem_of_statement_operations in Hkw as [[_ Hcs]|Hkw].
    - rewrite (Hc s Hs) in Hcs. discriminate Hcs.
    - eauto. }
  split; [|split].
  - apply not_true_is_false. intros Hcte.
    apply has_cte_write_analysis in Hcte as (s & Hs & Hcs).
    rewrite (Hc s Hs) in Hcs. discriminate Hcs.
  - intros Hm. apply Hops in Hm as (s & _ & Hm).
    apply (_find_write_operations_subseteq s) in Hm.
    exact (marker_not_keyword Hm).
  - intros kw Hkw. apply Hops in Hkw as (s & _ & Hkw).
    apply (_find_write_operations_subseteq s), Hkw.
Qed.

(** X6: the tokens in front of the first WITH keyword play no part in
    the CTE scan. *)
Theorem tokens_before_with_ignored
    (a a' : Attrs) (pre rest : list Token) :
  existsb is_with pre = false →
  _analyze_cte (Group a (pre ++ rest)) = _analyze_cte (Group a' rest).
Proof.
  intros Hno. unfold _analyze_cte. simpl tokens.
  apply _analyze_cte_loop_before; auto.
Qed.

(** X7: the full search of a token sequence is the union of the
    searches of its parts, and does not look at the attributes of the
    list that holds the sequence. *)
Theorem full_search_app (a a1 a2 : Attrs) (l1 l2 : list Token) :
  _find_write_operations (Group a (l1 ++ l2))
  = _find_write_operations (Group a1 l1)
    ∪ _find_write_operations (Group a2 l2).
Proof. apply find_write_operations_app. Qed.

(** X8: a write keyword token is found under any number of nested
    token lists: the full search has no depth limit. *)
Theorem nested_at_any_depth (n : nat) (kw : string) (token : Token) :
  is_write_keyword kw token = true → skipped token = false →
  kw ∈ _find_write_operations (nest (S n) token).
Proof.
  intros Hkw Hsk. apply (searched_found _ _ token); [|exact Hkw].
  apply searched_nest, Hsk.
Qed.


(** X11: the verdict [contains_write] is true exactly when, in some
    statement, the full search reaches a write keyword token or a token
    after a WITH keyword holds a write keyword as a substring. *)
Theorem contains_write_exact
    (parse : string → outcome (list Token)) (sql : string)
    (parsed : list Token) (r : AnalysisResult) :
  parse sql = Returned parsed →
  analyze_query parse sql = Returned r →
  (contains_write r = true ↔
   ∃ statement, statement ∈ parsed ∧
     ((∃ token kw, searched statement token ∧
                   is_write_keyword kw token = true)
      ∨ (∃ token kw, follows_with statement token ∧
                     kw ∈ write_keywords ∧
                     any_token (mentions kw) token = true))).
Proof.
  intros Hp Hr. rewrite (analyze_query_Returned _ _ _ Hp) in Hr.
  injection Hr as <-. rewrite contains_write_analysis. split.
  - intros [Hne|Hc].
    + apply set_choose_L in Hne as [kw Hkw].
      apply elem_of_analysis_operations in Hkw as (s & Hs & Hkw).
      exists s. split; [exact Hs|].
      apply elem_of_statement_operations in Hkw as [[_ Hc]|Hkw].
      * right. apply cte_write_true, _analyze_cte_true in Hc. exact Hc.
      * left. apply found_searched in Hkw as (t & Ht & Hk). eauto.
    + apply has_cte_write_analysis in Hc as (s & Hs & Hc).
      exists s. split; [exact Hs|]. right.
      apply cte_write_true, _analyze_cte_true in Hc. exact Hc.
  - intros (s & Hs & [(t & kw & Ht & Hk)|Hc]).
    + left. intros Hempty.
      assert (kw ∈ write_operations (analysis parsed)) as Hin.
      { apply elem_of_analysis_operations. exists s. split; [exact Hs|].
        apply elem_of_statement_operations. right.
        apply (searched_found _ _ t Ht Hk). }
      rewrite Hempty in Hin. apply elem_of_empty in Hin. exact Hin.
    + right. apply has_cte_write_analysis. exists s. split; [exact Hs|].
      apply cte_write_true, _analyze_cte_true, Hc.
Qed.

(** X12: both searches read a token's text in upper case only: putting
    every text of a token tree in upper case changes neither result. *)
Theorem searches_ignore_case (token : Token) :
  _find_write_operations (upper_text token) = _find_write_operations token
  ∧ _find_write_operations_in_token (upper_text token)
    = _find_write_operations_in_token token.
Proof.
  split;
    [apply upper_text_find_write_operations
    |apply upper_text_find_write_operations_in_token].
Qed.

(** X13: a write keyword that the full search finds in a token after a
    WITH keyword is reported together with the marker CTE_WRITE, and
    sets both flags. *)
Theorem write_after_with_reported_with_marker
    (parse : string → outcome (list Token)) (sql : string)
    (parsed : list Token) (statement token : Token) (a : Attrs)
    (kw : string) :
  parse sql = Returned parsed →
  statement ∈ parsed →
  follows_with statement token →
  kw ∈ _find_write_operations (Group a [token]) →
  ∃ r, analyze_query parse sql = Returned r ∧
       contains_write r = true ∧ has_cte_write r = true ∧
       kw ∈ write_operations r ∧ "CTE_WRITE" ∈ write_operations r.
Proof.
  intros Hp Hs Hf Hkw. rewrite find_write_operations_single in Hkw.
  exists (analysis parsed). split; [apply analyze_query_Returned, Hp|].
  pose proof (token_operations_any_token _ _ Hkw) as [Hw Hany].
  assert (cte_write statement = true) as Hc.
  { apply cte_write_true, _analyze_cte_true. eauto. }
  assert (has_cte_write (analysis parsed) = true) as Hflag.
  { apply has_cte_write_analysis. eauto. }
  split; [apply contains_write_analysis; auto|]. split; [exact Hflag|].
  split; apply elem_of_analysis_operations; exists statement;
    (split; [exact Hs|]); apply elem_of_statement_operations.
  - right. apply elem_of_find_write_operations. exists token.
    split; [|exact Hkw]. destruct Hf as (pre & w & mid & post & Heq & _).
    rewrite Heq. apply elem_of_app. right. right.
    apply elem_of_app. right. left.
  - left. auto.
Qed.

End Properties.

(** ** The properties on sample texts

    The texts below are ASCII, where [str.upper] is
    [PyStr.upper_ascii_text]. *)

#[local] Instance ascii_text : PyStr.Upper := {|
  PyStr.upper := PyStr.upper_ascii_text;
  PyStr.upper_idempotent := upper_ascii_text_idempotent
|}.

(** C1, as stated, fails: for [WITH c AS (SELECT 1) DELETE FROM t] the
    flag [has_cte_write] is set although no write keyword occurs inside
    any token that follows WITH; the only one is the DELETE of the main
    query, a token of the statement itself. *)
Lemma cte_flag_set_by_main_query_write :
  analyze_query (parsed_as [cte_then_delete])
                "WITH c AS (SELECT 1) DELETE FROM t"
  = Returned (mkResult true {["DELETE"; "CTE_WRITE"]} true)
  ∧ write_inside_with_body cte_then_delete = false.
Proof. split; vm_compute; reflexivity. Qed.

Lemma has_cte_write_only_after_with_witness :
  ∃ statement token kw,
    statement ∈ [cte_then_delete] ∧ follows_with statement token ∧
    kw ∈ write_keywords ∧ any_token (mentions kw) token = true.
Proof.
  apply (has_cte_write_only_after_with (parsed_as [cte_then_delete])
           "WITH c AS (SELECT 1) DELETE FROM t" [cte_then_delete]
           (mkResult true {["DELETE"; "CTE_WRITE"]} true)).
  - reflexivity.
  - vm_compute. reflexivity.
  - reflexivity.
Defined.

(** C2, as stated, fails: the call of the tokenizer is not guarded, so
    on a text for which the tokenizer raises, such as one nested deeper
    than it can group, the analysis raises as well. *)
Lemma analyze_query_raises_with_tokenizer :
  analyze_query (raising "SQLParseError") (nested_parentheses 5000)
  = Raised "SQLParseError".
Proof. reflexivity. Qed.

Lemma analyze_query_returns_witness :
  (∃ r, analyze_query (parsed_as [select_1; update_t])
          "SELECT 1; UPDATE t SET x=1" = Returned r ∧
        (contains_write r = true ↔
         ∃ statement, statement ∈ [select_1; update_t] ∧
           (_find_write_operations statement ≠ ∅ ∨
            _analyze_cte statement = true)))
  ∧ analyze_query (raising "SQLParseError") (nested_parentheses 5000)
    = Raised "SQLParseError".
Proof.
  split.
  - apply (analyze_query_returns (parsed_as [select_1; update_t])
             "SELECT 1; UPDATE t SET x=1").
    reflexivity.
  - apply (analyze_query_returns (raising "SQLParseError")
             (nested_parentheses 5000)).
    reflexivity.
Defined.

Lemma write_operations_subset_witness :
  ({["DELETE"; "CTE_WRITE"]} : gset string)
  ⊆ write_keywords ∪ {["CTE_WRITE"]}.
Proof.
  refine (write_operations_subset (parsed_as [cte_then_delete])
            "WITH c AS (SELECT 1) DELETE FROM t"
            (mkResult true {["DELETE"; "CTE_WRITE"]} true) _).
  vm_compute. reflexivity.
Defined.

Lemma result_consistent_witness :
  (true = true ↔
   ({["CTE_WRITE"]} : gset string) ≠ ∅ ∨ true = true)
  ∧ (true = true → "CTE_WRITE" ∈ ({["CTE_WRITE"]} : gset string)).
Proof.
  refine (result_consistent (parsed_as [cte_update_count])
            "WITH c AS (SELECT update_count FROM t) SELECT * FROM c"
            (mkResult true {["CTE_WRITE"]} true) _).
  vm_compute. reflexivity.
Defined.

(** C5, as stated, fails: the comment [-- DROP TABLE t] is a token
    list without a type of its own, which the comment test lets
    through, and behind a WITH clause it brings the marker CTE_WRITE
    into the operations of a text that has none without it. *)
Lemma comment_after_with_adds_marker :
  skipped drop_comment = false
  ∧ analyze_query (parsed_as [with_select_1_commented])
      "WITH c AS (SELECT 1) SELECT 1 -- DROP TABLE t"
    = Returned (mkResult true {["CTE_WRITE"]} true)
  ∧ analyze_query (parsed_as [with_select_1_plain])
      "WITH c AS (SELECT 1) SELECT 1"
    = Returned (mkResult false ∅ false).
Proof. repeat split; vm_compute; reflexivity. Qed.

Lemma skipped_token_ignored_witness :
  _find_write_operations
    (Group (mkAttrs None false false "SELECT 1 -- DROP TABLE t")
       (select_1_tokens ++ drop_comment :: []))
  = _find_write_operations
      (Group (mkAttrs None false false "SELECT 1 -- DROP TABLE t")
         (select_1_tokens ++ []))
  ∧ _find_write_operations
      (Group (mkAttrs None false false "SELECT  1")
         ([tok T.DML "SELECT"] ++ ws :: [ws; tok T.Integer "1"]))
    = _find_write_operations
        (Group (mkAttrs None false false "SELECT  1")
           ([tok T.DML "SELECT"] ++ [ws; tok T.Integer "1"])).
Proof.
  split.
  - apply (skipped_token_ignored
             (mkAttrs None false false "SELECT 1 -- DROP TABLE t")
             select_1_tokens [] drop_comment).
    right. reflexivity.
  - apply (skipped_token_ignored
             (mkAttrs None false false "SELECT  1")
             [tok T.DML "SELECT"] [ws; tok T.Integer "1"] ws).
    left. reflexivity.
Defined.

Lemma cte_scan_matches_substrings_witness :
  ∃ r, analyze_query (parsed_as [cte_update_count])
         "WITH c AS (SELECT update_count FROM t) SELECT * FROM c"
       = Returned r ∧
       has_cte_write r = true ∧ "CTE_WRITE" ∈ write_operations r.
Proof.
  apply (cte_scan_matches_substrings (parsed_as [cte_update_count])
           "WITH c AS (SELECT update_count FROM t) SELECT * FROM c"
           [cte_update_count] cte_update_count cte_body_update_count
           "UPDATE").
  - reflexivity.
  - left.
  - exists [], (tok T.CTE "WITH"), [ws],
      [ ws; tok T.DML "SELECT"; ws; tok T.Wildcard "*"; ws;
        tok T.Keyword "FROM"; ws; grp "c" [ tok T.Name "c" ] ].
    repeat split; reflexivity.
  - vm_compute. reflexivity.
  - vm_compute. reflexivity.
Defined.

Lemma no_statements_all_false_witness :
  analyze_query (parsed_as []) "" = Returned (mkResult false ∅ false)
  ∧ analyze_query (parsed_as [whitespace_only; comment_only])
      "  ;-- DROP TABLE t"
    = Returned (mkResult false ∅ false).
Proof.
  split.
  - apply (no_statements_all_false (parsed_as []) "" []);
      [reflexivity | left; reflexivity].
  - apply (no_statements_all_false
             (parsed_as [whitespace_only; comment_only])
             "  ;-- DROP TABLE t" [whitespace_only; comment_only]);
      [reflexivity | right; vm_compute; reflexivity].
Defined.

Lemma nested_keyword_found_witness :
  ∃ r, analyze_query (parsed_as [delete_three_deep])
         "SELECT * FROM (SELECT * FROM (SELECT * FROM (DELETE FROM t)))"
       = Returned r ∧
       "DELETE" ∈ write_operations r ∧ contains_write r = true.
Proof.
  refine (nested_keyword_found (parsed_as [delete_three_deep])
            "SELECT * FROM (SELECT * FROM (SELECT * FROM (DELETE FROM t)))"
            [delete_three_deep] delete_three_deep (tok T.DML "DELETE")
            _ _ _ _ _).
  - reflexivity.
  - left.
  - apply (searched_nested _ delete_level3);
      [apply (searched_nested _ delete_level2);
         [apply (searched_nested _ delete_level1);
            [apply searched_top|..]|..]|..];
      try reflexivity;
      apply list_elem_of_In; simpl;
      repeat (first [left; reflexivity | right]).
  - reflexivity.
  - vm_compute. reflexivity.
Defined.

Lemma statements_merge_witness :
  analyze_query (parsed_as [select_1; update_t]) "SELECT 1; UPDATE t SET x=1"
  = Returned (mkResult true {["UPDATE"]} false)
  ∧ analyze_query (parsed_as [update_t; select_1])
      " UPDATE t SET x=1;SELECT 1;"
    = analyze_query (parsed_as [select_1; update_t])
        "SELECT 1; UPDATE t SET x=1".
Proof.
  destruct (statements_merge (parsed_as [select_1; update_t])
              "SELECT 1; UPDATE t SET x=1" [select_1; update_t] eq_refl)
    as (Hm & _ & Hperm & _).
  split.
  - rewrite Hm. vm_compute. reflexivity.
  - apply (Hperm (parsed_as [update_t; select_1])
             " UPDATE t SET x=1;SELECT 1;" [update_t; select_1]);
      [reflexivity | apply perm_swap].
Defined.

Lemma cte_scan_adds_marker_only_witness :
  write_operations (mkResult true {["CTE_WRITE"]} true)
  = {["CTE_WRITE"]}
  ∧ "UPDATE" ∉ write_operations (mkResult true {["CTE_WRITE"]} true).
Proof.
  destruct (cte_scan_adds_marker_only (parsed_as [cte_update_count])
              "WITH c AS (SELECT update_count FROM t) SELECT * FROM c"
              [cte_update_count] (mkResult true {["CTE_WRITE"]} true)
              eq_refl)
    as [_ Hmarker]; [vm_compute; reflexivity|].
  split.
  - apply Hmarker; [reflexivity|].
    intros s Hs. apply list_elem_of_singleton in Hs as ->.
    vm_compute. reflexivity.
  - vm_compute. intros H. inversion H.
Defined.

Lemma no_top_level_with_no_cte_flag_witness :
  has_cte_write (mkResult true {["DELETE"]} false) = false ∧
  ("CTE_WRITE" ∉ write_operations (mkResult true {["DELETE"]} false)) ∧
  (write_operations (mkResult true {["DELETE"]} false) ⊆ write_keywords).
Proof.
  apply (no_top_level_with_no_cte_flag (parsed_as [with_in_subquery])
           "SELECT * FROM (WITH c AS (DELETE FROM t) SELECT * FROM c)"
           [with_in_subquery] (mkResult true {["DELETE"]} false)).
  - reflexivity.
  - vm_compute. reflexivity.
  - intros s Hs. apply list_elem_of_singleton in Hs as ->. reflexivity.
Defined.

Lemma tokens_before_with_ignored_witness :
  _analyze_cte
    (Group (mkAttrs None false false
              "INSERT INTO t WITH c AS (SELECT 1) SELECT * FROM c")
       (insert_into_t ++ with_select))
  = _analyze_cte
      (Group (mkAttrs None false false
                "WITH c AS (SELECT 1) SELECT * FROM c")
         with_select).
Proof.
  apply (tokens_before_with_ignored
           (mkAttrs None false false
              "INSERT INTO t WITH c AS (SELECT 1) SELECT * FROM c")
           (mkAttrs None false false "WITH c AS (SELECT 1) SELECT * FROM c")
           insert_into_t with_select).
  reflexivity.
Defined.

Lemma nested_at_any_depth_witness :
  "DROP" ∈ _find_write_operations (nest 40 (tok T.DDL "drop")).
Proof.
  apply (nested_at_any_depth 39 "DROP" (tok T.DDL "drop"));
    vm_compute; reflexivity.
Defined.


Lemma contains_write_exact_witness :
  contains_write (mkResult true {["UPDATE"]} false) = true ↔
  ∃ statement, statement ∈ [select_1; update_t] ∧
    ((∃ token kw, searched statement token ∧
                  is_write_keyword kw token = true)
     ∨ (∃ token kw, follows_with statement token ∧
                    kw ∈ write_keywords ∧
                    any_token (mentions kw) token = true)).
Proof.
  apply (contains_write_exact (parsed_as [select_1; update_t])
           "SELECT 1; UPDATE t SET x=1" [select_1; update_t]
           (mkResult true {["UPDATE"]} false)).
  - reflexivity.
  - vm_compute. reflexivity.
Defined.

Lemma write_after_with_reported_with_marker_witness :
  ∃ r, analyze_query (parsed_as [cte_delete])
         "WITH c AS (DELETE FROM t) SELECT * FROM c" = Returned r ∧
       contains_write r = true ∧ has_cte_write r = true ∧
       "DELETE" ∈ write_operations r ∧ "CTE_WRITE" ∈ write_operations r.
Proof.
  apply (write_after_with_reported_with_marker (parsed_as [cte_delete])
           "WITH c AS (DELETE FROM t) SELECT * FROM c" [cte_delete]
           cte_delete cte_body_delete (mkAttrs None false false "")
           "DELETE").
  - reflexivity.
  - left.
  - exists [], (tok T.CTE "WITH"), [ws],
      [ ws; tok T.DML "SELECT"; ws; tok T.Wildcard "*"; ws;
        tok T.Keyword "FROM"; ws; grp "c" [ tok T.Name "c" ] ].
    repeat split; reflexivity.
  - vm_compute. reflexivity.
Defined.
